(** * AsyncRateLimiter (challenges/challenge_6.py): a sliding-window
    admission gate for asyncio coroutines.

    [acquire] is translated twice from the source, with the same control
    flow and two number systems.

    - Exact ticks.  Timestamps and durations are integers and the
      arithmetic of lines 29, 34 and 41 is exact.  On these numbers stand
      the list and record operations of [AsyncRateLimiter], [acquire] for
      one caller (the clock readings and the way the sleep ends are
      supplied by the environment), and an event system in which any
      number of tasks call [acquire] on one shared limiter, interleaved at
      the suspension points of the coroutine ([async with self._lock],
      [await asyncio.sleep]), with a clock that does not run backwards and
      sleeps that do not end early.  This part settles what depends on
      the control flow: construction, the lock, cancellation, the single
      append of a call.

    - Binary64 (module [Binary64]).  [time.time()] returns a Python float,
      an IEEE 754 binary64 number, and lines 29, 34 and 41 compute on such
      numbers: each addition and subtraction is rounded to the nearest
      representable value.  [Binary64] is the same code on Rocq's
      primitive binary64 floats, with the clock readings, early or not,
      left to the environment.  This part settles what depends on the
      arithmetic of the window: there the test of line 29 and the wait of
      line 34, which agree on exact numbers, are rounded apart. *)

From Stdlib Require Import Floats.
From stdpp Require Import gmap list sorting.

Open Scope Z_scope.
Set Warnings "-inexact-float".

(** * Exact ticks *)

(** ** Data model *)

(** Exceptions that can leave [__init__] or [acquire].  [IndexError] is
    raised by [self.calls[0]] on an empty list, [CancelledError] is thrown
    into a coroutine cancelled at an [await].  [InvalidConfiguration] is the
    error the specification names for the constructor; no statement of the
    source raises it. *)
Inductive exn :=
| IndexError
| CancelledError
| InvalidConfiguration.

#[global] Instance exn_eq_dec : EqDecision exn.
Proof. solve_decision. Defined.

(** The object built by [__init__].  [_lock] is the [asyncio.Lock]: [None]
    when it is free, [Some i] while task [i] is inside the [async with]
    block. *)
Record AsyncRateLimiter := mkLimiter {
  max_calls : Z;
  time_period : Z;
  calls : list Z;
  _lock : option nat
}.

Definition set_calls (cs : list Z) (self : AsyncRateLimiter) : AsyncRateLimiter :=
  {| max_calls := max_calls self; time_period := time_period self;
     calls := cs; _lock := _lock self |}.

Definition set_lock (o : option nat) (self : AsyncRateLimiter) : AsyncRateLimiter :=
  {| max_calls := max_calls self; time_period := time_period self;
     calls := calls self; _lock := o |}.

(** [__init__] (lines 7-17): four assignments, no check of the arguments. *)
Definition __init__ (max_calls time_period : Z) : exn + AsyncRateLimiter :=
  inr {| max_calls := max_calls; time_period := time_period;
         calls := []; _lock := None |}.

(** ** The window filter *)

(** [[timestamp for timestamp in self.calls
      if timestamp > now - self.time_period]] (lines 28-29 and 40-41). *)
Definition prune (now period : Z) (cs : list Z) : list Z :=
  filter (λ timestamp, timestamp > now - period) cs.

Arguments prune : simpl never.

(** ** The coroutine, piece by piece *)

(** Where a piece of [acquire] stops: at the end of the body ([Return]), at
    [await asyncio.sleep(wait_time)] inside the [with] block ([Await_sleep]),
    or with an exception leaving the [with] block ([Raise]).  Leaving the
    block, normally or not, runs the lock's [__aexit__], which releases it. *)
Inductive suspension :=
| Return (self : AsyncRateLimiter)
| Await_sleep (wait_time : Z) (self : AsyncRateLimiter)
| Raise (e : exn) (self : AsyncRateLimiter).

(** Line 44, followed by the end of the [with] block. *)
Definition append_and_leave (now : Z) (self : AsyncRateLimiter) : AsyncRateLimiter :=
  set_lock None (set_calls (calls self ++ [now]) self).

(** Lines 24-37 and 44: from the moment task [me] owns the lock up to the
    first suspension.  [now] is the value of [time.time()] on line 25. *)
Definition acquire_enter (me : nat) (self : AsyncRateLimiter) (now : Z) : suspension :=
  let self := set_lock (Some me) self in
  let self := set_calls (prune now (time_period self) (calls self)) self in
  if decide (Z.of_nat (length (calls self)) >= max_calls self) then
    match calls self with
    | [] => Raise IndexError (set_lock None self)
    | oldest_call :: _ =>
        let wait_time := oldest_call + time_period self - now in
        if decide (wait_time > 0) then Await_sleep wait_time self
        else Return (append_and_leave now self)
    end
  else Return (append_and_leave now self).

(** Lines 38-44: the sleep has returned; [now] is the value of
    [time.time()] on line 39.  The log is filtered again and the new reading
    is appended; the length of the log is not compared with [max_calls]
    again, and there is no further [await]. *)
Definition acquire_wake (self : AsyncRateLimiter) (now : Z) : AsyncRateLimiter :=
  let self := set_calls (prune now (time_period self) (calls self)) self in
  append_and_leave now self.

(** The task is cancelled while it sleeps on line 37: [CancelledError] is
    raised at the [await], lines 38-44 are skipped, the [with] block is
    left. *)
Definition acquire_cancel (self : AsyncRateLimiter) : AsyncRateLimiter :=
  set_lock None self.

(** ** [acquire] for one caller *)

(** How the environment ends the sleep of line 37: it returns and the next
    [time.time()] reads [now], or the task is cancelled meanwhile. *)
Inductive wakeup :=
| Woken (now : Z)
| Cancelled.

(** What the caller of [acquire] observes. *)
Inductive completion :=
| Returned (self : AsyncRateLimiter)
| Raised (e : exn) (self : AsyncRateLimiter).

(** One whole call by task [me] on a limiter whose lock is free.  [now] is
    the first clock reading; [w] is consulted only if the call sleeps.  The
    second component lists the durations passed to [asyncio.sleep]. *)
Definition acquire (me : nat) (self : AsyncRateLimiter) (now : Z) (w : wakeup)
  : completion * list Z :=
  match acquire_enter me self now with
  | Return self' => (Returned self', [])
  | Raise e self' => (Raised e self', [])
  | Await_sleep wait_time self' =>
      match w with
      | Woken now' => (Returned (acquire_wake self' now'), [wait_time])
      | Cancelled => (Raised CancelledError (acquire_cancel self'), [wait_time])
      end
  end.

(** ** Any number of callers *)

(** What the event loop knows of a task that has called [acquire]. *)
Inductive task_state :=
| WaitingLock                          (* suspended in [async with self._lock] *)
| Sleeping (wait_time since : Z)       (* suspended on line 37 since [since] *)
| Granted (stamp : Z)                  (* [acquire] returned, [stamp] appended *)
| Failed (e : exn).                    (* [acquire] raised [e] *)

Record system := mkSystem {
  limiter : AsyncRateLimiter;
  clock : Z;
  tasks : gmap nat task_state
}.

(** The moves of the event loop and of its environment.  [Tick d]: time
    passes.  [Call i]: a new task [i] calls [acquire] and queues for the
    lock.  [Enter i]: the free lock is handed to the waiting task [i], which
    runs to its first suspension.  [Wake i]: the sleep of task [i] is over
    and the task runs to the end.  [Cancel i]: task [i] is cancelled where it
    is suspended. *)
Inductive event :=
| Tick (d : Z)
| Call (i : nat)
| Enter (i : nat)
| Wake (i : nat)
| Cancel (i : nat).

Definition settle (i : nat) (s : system) (r : suspension) : system :=
  match r with
  | Return self =>
      mkSystem self (clock s) (<[i := Granted (clock s)]> (tasks s))
  | Await_sleep wait_time self =>
      mkSystem self (clock s) (<[i := Sleeping wait_time (clock s)]> (tasks s))
  | Raise e self =>
      mkSystem self (clock s) (<[i := Failed e]> (tasks s))
  end.

(** One move; [None] when the move is not possible in [s].  A coroutine runs
    without interruption from one suspension point to the next, so a move
    runs one piece of [acquire] as a whole.  The environment is the one
    [asyncio.sleep] and a monotonic clock promise: the clock never runs
    backwards ([Tick] takes [0 <= d]) and a sleep of [wait_time] does not
    return before [wait_time] has passed ([Wake] waits for the deadline).
    [asyncio.Lock] serves its waiters first come, first served; here any
    waiting task may be the next to enter, which includes that order. *)
Definition step (s : system) (ev : event) : option system :=
  match ev with
  | Tick d =>
      if decide (0 <= d) then Some (mkSystem (limiter s) (clock s + d) (tasks s))
      else None
  | Call i =>
      match tasks s !! i with
      | None => Some (mkSystem (limiter s) (clock s) (<[i := WaitingLock]> (tasks s)))
      | Some _ => None
      end
  | Enter i =>
      match tasks s !! i, _lock (limiter s) with
      | Some WaitingLock, None =>
          Some (settle i s (acquire_enter i (limiter s) (clock s)))
      | _, _ => None
      end
  | Wake i =>
      match tasks s !! i with
      | Some (Sleeping wait_time since) =>
          if decide (since + wait_time <= clock s)
          then Some (settle i s (Return (acquire_wake (limiter s) (clock s))))
          else None
      | _ => None
      end
  | Cancel i =>
      match tasks s !! i with
      | Some WaitingLock =>
          Some (settle i s (Raise CancelledError (limiter s)))
      | Some (Sleeping _ _) =>
          Some (settle i s (Raise CancelledError (acquire_cancel (limiter s))))
      | _ => None
      end
  end.

Fixpoint run (s : system) (evs : list event) : option system :=
  match evs with
  | [] => Some s
  | ev :: evs' =>
      match step s ev with
      | Some s' => run s' evs'
      | None => None
      end
  end.

(** The event loop at time [t0] with a limiter fresh from [__init__] and no
    task yet. *)
Definition boot (max_calls time_period t0 : Z) : option system :=
  match __init__ max_calls time_period with
  | inr self => Some (mkSystem self t0 ∅)
  | inl _ => None
  end.

Definition reachable (max_calls time_period : Z) (s : system) : Prop :=
  ∃ t0 s0 evs, boot max_calls time_period t0 = Some s0 ∧ run s0 evs = Some s.

(** ** Invariants and sample runs *)

(** Who owns the lock, for any configuration: the task that sleeps, and
    nobody else. *)
Record lock_inv (s : system) : Prop := mkLockInv {
  held_by_sleeper : ∀ i wait_time since,
    tasks s !! i = Some (Sleeping wait_time since) → _lock (limiter s) = Some i;
  owner_sleeps : ∀ i,
    _lock (limiter s) = Some i →
    ∃ wait_time since, tasks s !! i = Some (Sleeping wait_time since)
}.


(** Admissions, read off the task table: the tasks whose call returned with
    a timestamp later than [lo], or in [(lo, hi]]. *)
Definition granted_after (lo : Z) (st : task_state) : Prop :=
  match st with
  | Granted stamp => lo < stamp
  | _ => False
  end.

#[global] Instance granted_after_dec lo st : Decision (granted_after lo st).
Proof. destruct st; cbn; apply _. Defined.

(** The number of tasks in a state that satisfies [P]. *)
Definition count_tasks (P : task_state → Prop) `{!∀ st, Decision (P st)}
    (m : gmap nat task_state) : nat :=
  size (filter (λ kv, P kv.2) m).

(** The number of log entries later than [x]. *)
Definition newer (x : Z) (cs : list Z) : nat :=
  length (filter (λ a, a > x) cs).


(** Three tasks call at time 0 on a limiter of quota 2 and period 10; the
    third sleeps until the first admission leaves the window. *)
Definition three_callers : list event :=
  [Call 0; Call 1; Call 2; Enter 0; Tick 1; Enter 1; Tick 1; Enter 2; Tick 8; Wake 2].

(** ** Further invariants *)

(** A task whose call has returned. *)
Definition is_granted (st : task_state) : Prop :=
  match st with
  | Granted _ => True
  | _ => False
  end.

#[global] Instance is_granted_dec st : Decision (is_granted st).
Proof. destruct st; cbn; apply _. Defined.


(** Every log entry is an admission: entry by entry, and by number above any
    threshold. *)
Definition log_admitted (s : system) : Prop :=
  (∀ c, c ∈ calls (limiter s) → ∃ i, tasks s !! i = Some (Granted c))
  ∧ (∀ x, (newer x (calls (limiter s)) <= count_tasks (granted_after x) (tasks s))%nat)
  ∧ (length (calls (limiter s)) <= count_tasks is_granted (tasks s))%nat.

(** ** The same code on binary64 floats *)

(** Python's [float] is the IEEE 754 binary64 format on every platform
    CPython runs on; [+] and [-] round to nearest, ties to even, and [>]
    is the IEEE comparison (false when an operand is NaN).  Rocq's
    primitive floats are the same format with the same operations.
    Decimal constants are read as Python reads them, as the nearest
    binary64 value. *)
Module Binary64.

(** The object built by [__init__].  [time_period] takes part in float
    arithmetic only; an [int] argument (the 2 of [main]) enters it as the
    float of the same value. *)
Record AsyncRateLimiter := mkLimiter {
  max_calls : Z;
  time_period : float;
  calls : list float;
  _lock : option nat
}.

Definition set_calls (cs : list float) (self : AsyncRateLimiter) : AsyncRateLimiter :=
  {| max_calls := max_calls self; time_period := time_period self;
     calls := cs; _lock := _lock self |}.

Definition set_lock (o : option nat) (self : AsyncRateLimiter) : AsyncRateLimiter :=
  {| max_calls := max_calls self; time_period := time_period self;
     calls := calls self; _lock := o |}.

(** Lines 7-17. *)
Definition __init__ (max_calls : Z) (time_period : float) : exn + AsyncRateLimiter :=
  inr {| max_calls := max_calls; time_period := time_period;
         calls := []; _lock := None |}.

(** Python's [x > y] on floats. *)
Definition gtb (x y : float) : bool := PrimFloat.ltb y x.

(** [[timestamp for timestamp in self.calls
      if timestamp > now - self.time_period]] (lines 28-29 and 40-41):
    [now - period] is rounded once, then compared with every entry. *)
Definition prune (now period : float) (cs : list float) : list float :=
  filter (λ timestamp, gtb timestamp (now - period) = true) cs.

Arguments prune : simpl never.

(** What a call does to the outside world: the line printed on line 36
    (the text is "Rate limit reached. Waiting {wait_time:.2f} seconds...";
    the value is kept in place of its two-digit rendering) and the sleep of
    line 37. *)
Inductive effect :=
| Print_rate_limit_reached (wait_time : float)
| Sleep (wait_time : float).

(** Where a piece of [acquire] stops, as for exact ticks; [Await_sleep]
    stands for lines 36-37, the print and the [await] that follows it. *)
Inductive suspension :=
| Return (self : AsyncRateLimiter)
| Await_sleep (wait_time : float) (self : AsyncRateLimiter)
| Raise (e : exn) (self : AsyncRateLimiter).

(** Line 44, followed by the end of the [with] block. *)
Definition append_and_leave (now : float) (self : AsyncRateLimiter) : AsyncRateLimiter :=
  set_lock None (set_calls (calls self ++ [now]) self).

(** Lines 24-37 and 44.  [oldest_call + self.time_period - now] is
    evaluated from left to right: the sum is rounded, then the difference.
    [wait_time > 0] compares with the integer 0, which is the float 0. *)
Definition acquire_enter (me : nat) (self : AsyncRateLimiter) (now : float) : suspension :=
  let self := set_lock (Some me) self in
  let self := set_calls (prune now (time_period self) (calls self)) self in
  if decide (Z.of_nat (length (calls self)) >= max_calls self) then
    match calls self with
    | [] => Raise IndexError (set_lock None self)
    | oldest_call :: _ =>
        let wait_time := (oldest_call + time_period self - now)%float in
        if gtb wait_time 0 then Await_sleep wait_time self
        else Return (append_and_leave now self)
    end
  else Return (append_and_leave now self).

(** Lines 38-44; [now] is the value of [time.time()] on line 39, whatever
    it is. *)
Definition acquire_wake (self : AsyncRateLimiter) (now : float) : AsyncRateLimiter :=
  let self := set_calls (prune now (time_period self) (calls self)) self in
  append_and_leave now self.

Definition acquire_cancel (self : AsyncRateLimiter) : AsyncRateLimiter :=
  set_lock None self.

Inductive wakeup :=
| Woken (now : float)
| Cancelled.

Inductive completion :=
| Returned (self : AsyncRateLimiter)
| Raised (e : exn) (self : AsyncRateLimiter).

(** One whole call by task [me] on a limiter whose lock is free, with what
    it printed and how long it asked to sleep.  The lock is held from the
    first line of the body to the last, so the bodies of concurrent callers
    run one after the other: a limiter goes from call to call as from one
    [acquire] to the next. *)
Definition acquire (me : nat) (self : AsyncRateLimiter) (now : float) (w : wakeup)
  : completion * list effect :=
  match acquire_enter me self now with
  | Return self' => (Returned self', [])
  | Raise e self' => (Raised e self', [])
  | Await_sleep wait_time self' =>
      let effects := [Print_rate_limit_reached wait_time; Sleep wait_time] in
      match w with
      | Woken now' => (Returned (acquire_wake self' now'), effects)
      | Cancelled => (Raised CancelledError (acquire_cancel self'), effects)
      end
  end.

(** The number of logged timestamps inside the window that ends at [now],
    counted by the code's own test. *)
Definition in_window (now period : float) (cs : list float) : nat :=
  length (prune now period cs).

(** The real number a float stands for, as a whole number of units of
    2^-1074 (every finite binary64 value is one); nothing for the
    infinities and NaN. *)
Definition ticks (x : float) : option Z :=
  match Prim2SF x with
  | S754_zero _ => Some 0
  | S754_finite s m e => Some ((if s then -1 else 1) * Z.pos m * 2 ^ (e + 1074))
  | S754_infinity _ | S754_nan => None
  end.

(** [timestamp] lies in the window [(now - period, now]], the three taken
    as real numbers, without rounding. *)
Definition inside (now period timestamp : float) : bool :=
  match ticks now, ticks period, ticks timestamp with
  | Some n, Some p, Some t => bool_decide (n - p < t ∧ t <= n)
  | _, _, _ => false
  end.

(** The number of logged timestamps inside that window. *)
Definition stamps_inside (now period : float) (cs : list float) : nat :=
  length (filter (λ timestamp, inside now period timestamp = true) cs).

(** [now'] is [now + wait_time] as real numbers: the reading after a sleep
    that lasted what was asked for, to the last digit. *)
Definition adds_up (now wait_time now' : float) : bool :=
  match ticks now, ticks wait_time, ticks now' with
  | Some n, Some w, Some n' => bool_decide (n + w = n')
  | _, _, _ => false
  end.

End Binary64.

(** * Properties on exact ticks *)

(** ** The window filter *)

Section Prune.
Context (now period : Z).
Implicit Types (cs : list Z) (t : Z).

Lemma elem_of_prune cs t :
  t ∈ prune now period cs ↔ t ∈ cs ∧ t > now - period.
Proof. unfold prune. rewrite list_elem_of_filter. tauto. Qed.


Lemma prune_cons_live cs t :
  t > now - period → prune now period (t :: cs) = t :: prune now period cs.
Proof. intros Hnew. unfold prune. by rewrite filter_cons_True. Qed.

Lemma prune_length cs : (length (prune now period cs) <= length cs)%nat.
Proof. apply length_filter. Qed.

Lemma prune_all_live cs :
  Forall (λ t, t > now - period) cs → prune now period cs = cs.
Proof.
  induction 1 as [|t cs Ht _ IH]; [done|].
  by rewrite prune_cons_live, IH.
Qed.

Lemma prune_live cs : Forall (λ t, t > now - period) (prune now period cs).
Proof. apply Forall_forall. intros t Ht. by apply elem_of_prune in Ht as [_ ?]. Qed.

Lemma prune_idemp cs :
  prune now period (prune now period cs) = prune now period cs.
Proof. apply prune_all_live, prune_live. Qed.


End Prune.

(** Field access through the record updates. *)
Lemma acquire_wake_calls self now :
  calls (acquire_wake self now)
  = prune now (time_period self) (calls self) ++ [now].
Proof. done. Qed.



Lemma acquire_enter_empty me self now :
  prune now (time_period self) (calls self) = [] →
  max_calls self <= 0 →
  acquire_enter me self now
  = Raise IndexError (mkLimiter (max_calls self) (time_period self) [] None).
Proof.
  intros Hkept Hmax. unfold acquire_enter. cbn. rewrite Hkept. cbn.
  destruct (decide _) as [_|Hroom]; [done | lia].
Qed.

(** ** Construction *)

(** C2, as stated, fails: with [max_calls = 0] and [time_period = 0] (and
    with negative arguments) [__init__] returns a limiter and raises
    nothing. *)
Lemma init_accepts_nonpositive :
  __init__ 0 0 = inr (mkLimiter 0 0 [] None)
  ∧ __init__ 0 0 ≠ inl InvalidConfiguration
  ∧ __init__ (-3) (-1) = inr (mkLimiter (-3) (-1) [] None).
Proof. repeat split; discriminate. Qed.

(** C2, amended: for all arguments, positive or not, [__init__] succeeds and
    returns a limiter that stores them unchanged, with an empty log and a
    free lock; [InvalidConfiguration] is never raised. *)
Theorem init_always_succeeds (m p : Z) :
  __init__ m p = inr (mkLimiter m p [] None)
  ∧ ∀ e, __init__ m p ≠ inl e.
Proof. split; [reflexivity | discriminate]. Qed.

(** ** The full-window branch *)


(** ** One call, one timestamp *)

(** C7: a call of [acquire] that returns leaves the log equal to the
    filtered old log followed by one new entry, the last clock reading of the
    call ([now] if it did not sleep, the reading after the sleep if it did).
    The filtered part only loses entries, so the call adds one timestamp, not
    none and not two. *)
Theorem completed_acquire_appends_once
    (me : nat) (self self' : AsyncRateLimiter) (now : Z) (w : wakeup)
    (sleeps : list Z) :
  acquire me self now w = (Returned self', sleeps) →
  ∃ stamp,
    ((sleeps = [] ∧ stamp = now) ∨ (∃ wait_time, sleeps = [wait_time] ∧ w = Woken stamp))
    ∧ calls self'
      = prune stamp (time_period self) (prune now (time_period self) (calls self))
        ++ [stamp]
    ∧ prune stamp (time_period self) (prune now (time_period self) (calls self))
      `sublist_of` calls self
    ∧ length (calls self')
      = S (length (prune stamp (time_period self)
                     (prune now (time_period self) (calls self)))).
Proof.
  intros Hrun.
  assert (∀ stamp,
    prune stamp (time_period self) (prune now (time_period self) (calls self))
    `sublist_of` calls self) as Hsub.
  { intros stamp. etrans; apply sublist_filter. }
  unfold acquire in Hrun.
  destruct (acquire_enter me self now) as [self1|wait_time self1|e self1] eqn:Henter.
  - (* no sleep *)
    injection Hrun as <- <-. exists now.
    assert (calls self1 = prune now (time_period self) (calls self) ++ [now]) as Hlog.
    { unfold acquire_enter in Henter. cbn in Henter.
      repeat case_match; simplify_eq; done. }
    rewrite prune_idemp, Hlog, length_app. cbn.
    split; [by left|]. split; [done|]. split; [apply sublist_filter | lia].
  - (* slept *)
    destruct w as [now'|]; [|discriminate].
    injection Hrun as <- <-. exists now'.
    assert (time_period self1 = time_period self
            ∧ calls self1 = prune now (time_period self) (calls self)) as [HT Hlog].
    { unfold acquire_enter in Henter. cbn in Henter.
      repeat case_match; simplify_eq; done. }
    rewrite acquire_wake_calls, HT, Hlog, length_app. cbn.
    split; [right; by exists wait_time|]. split; [done|]. split; [done | lia].
  - discriminate.
Qed.

Lemma completed_acquire_appends_once_witness :
  ∃ stamp,
    (([6] = [] ∧ stamp = 12) ∨ (∃ wait_time, [6] = [wait_time] ∧ Woken 19 = Woken stamp))
    ∧ [11; 19] = prune stamp 10 (prune 12 10 [1; 8; 11]) ++ [stamp]
    ∧ prune stamp 10 (prune 12 10 [1; 8; 11]) `sublist_of` [1; 8; 11]
    ∧ length [11; 19] = S (length (prune stamp 10 (prune 12 10 [1; 8; 11]))).
Proof.
  apply (completed_acquire_appends_once 0 (mkLimiter 2 10 [1; 8; 11] None)
           (mkLimiter 2 10 [11; 19] None) 12 (Woken 19) [6]).
  vm_compute. reflexivity.
Defined.

(** ** Invariants of the event system *)













(** The configuration is never written after [__init__]. *)
Lemma acquire_enter_shape (me : nat) (self : AsyncRateLimiter) (now : Z) :
  match acquire_enter me self now with
  | Return self' =>
      _lock self' = None
      ∧ calls self' = prune now (time_period self) (calls self) ++ [now]
      ∧ max_calls self' = max_calls self ∧ time_period self' = time_period self
  | Await_sleep wait_time self' =>
      _lock self' = Some me
      ∧ calls self' = prune now (time_period self) (calls self)
      ∧ max_calls self' = max_calls self ∧ time_period self' = time_period self
  | Raise e self' =>
      _lock self' = None ∧ e = IndexError
      ∧ calls self' = prune now (time_period self) (calls self)
      ∧ max_calls self' = max_calls self ∧ time_period self' = time_period self
  end.
Proof. unfold acquire_enter. cbn. repeat case_match; simplify_eq; done. Qed.

Lemma step_config (s s' : system) (ev : event) :
  step s ev = Some s' →
  max_calls (limiter s') = max_calls (limiter s)
  ∧ time_period (limiter s') = time_period (limiter s).
Proof.
  intros Hstep. destruct ev as [d|i|i|i|i]; cbn in Hstep;
    repeat case_match; simplify_eq; try done.
  pose proof (acquire_enter_shape i (limiter s) (clock s)) as Hshape.
  destruct (acquire_enter i (limiter s) (clock s)); cbn; tauto.
Qed.

Lemma run_config (evs : list event) (s s' : system) :
  run s evs = Some s' →
  max_calls (limiter s') = max_calls (limiter s)
  ∧ time_period (limiter s') = time_period (limiter s).
Proof.
  revert s. induction evs as [|ev evs IH]; intros s Hrun; cbn in Hrun.
  - by injection Hrun as <-.
  - destruct (step s ev) as [s1|] eqn:Hstep; [|done].
    destruct (step_config _ _ _ Hstep) as [<- <-]. by apply IH.
Qed.

Lemma reachable_config (m p : Z) (s : system) :
  reachable m p s → max_calls (limiter s) = m ∧ time_period (limiter s) = p.
Proof.
  intros (t0 & s0 & evs & [= <-] & Hrun). by apply run_config in Hrun.
Qed.

Lemma lock_inv_step (s s' : system) (ev : event) :
  lock_inv s → step s ev = Some s' → lock_inv s'.
Proof.
  intros [Hsleeper Howner] Hstep.
  destruct ev as [d|i|i|i|i]; cbn in Hstep.
  - case_decide; [|done]. injection Hstep as <-. by split.
  - destruct (tasks s !! i) eqn:Hi; [done|]. injection Hstep as <-.
    split; cbn.
    + intros j w since Hj. apply lookup_insert_Some in Hj as [[_ [=]]|[_ Hj]].
      by eapply Hsleeper.
    + intros j Hlock. destruct (Howner j Hlock) as (w & since & Hj).
      exists w, since. rewrite lookup_insert_ne; [done|]. intros ->. congruence.
  - destruct (tasks s !! i) as [[| | |]|] eqn:Hi; try done.
    destruct (_lock (limiter s)) eqn:Hlock; [done|]. injection Hstep as <-.
    pose proof (acquire_enter_shape i (limiter s) (clock s)) as Hshape.
    destruct (acquire_enter i (limiter s) (clock s)) as [self'|w self'|e self'];
      destruct Hshape as [Hlock' _]; split; cbn; rewrite Hlock'; try done.
    + intros j w since Hj. apply lookup_insert_Some in Hj as [[_ [=]]|[_ Hj]].
      apply Hsleeper in Hj. congruence.
    + intros j w' since Hj. apply lookup_insert_Some in Hj as [[<- _]|[_ Hj]]; [done|].
      apply Hsleeper in Hj. congruence.
    + intros j [= <-]. eexists _, _. apply lookup_insert_eq.
    + intros j w since Hj. apply lookup_insert_Some in Hj as [[_ [=]]|[_ Hj]].
      apply Hsleeper in Hj. congruence.
  - destruct (tasks s !! i) as [[|w since| |]|] eqn:Hi; try done.
    case_decide; [|done]. injection Hstep as <-. split; cbn; [|done].
    intros j w' since' Hj. apply lookup_insert_Some in Hj as [[_ [=]]|[Hne Hj]].
    apply Hsleeper in Hj. apply Hsleeper in Hi. congruence.
  - destruct (tasks s !! i) as [[|w since| |]|] eqn:Hi; try done;
      injection Hstep as <-; split; cbn; try done.
    + intros j w since Hj. apply lookup_insert_Some in Hj as [[_ [=]]|[_ Hj]].
      by eapply Hsleeper.
    + intros j Hlock. destruct (Howner j Hlock) as (w & since & Hj).
      exists w, since. rewrite lookup_insert_ne; [done|]. intros ->. congruence.
    + intros j w' since' Hj. apply lookup_insert_Some in Hj as [[_ [=]]|[Hne Hj]].
      apply Hsleeper in Hj. apply Hsleeper in Hi. congruence.
Qed.

Lemma lock_inv_run (evs : list event) (s s' : system) :
  lock_inv s → run s evs = Some s' → lock_inv s'.
Proof.
  revert s. induction evs as [|ev evs IH]; intros s Hinv Hrun; cbn in Hrun.
  - by injection Hrun as <-.
  - destruct (step s ev) as [s1|] eqn:Hstep; [|done].
    eapply IH; [|done]. by eapply lock_inv_step.
Qed.

Lemma lock_inv_reachable (m p : Z) (s : system) : reachable m p s → lock_inv s.
Proof.
  intros (t0 & s0 & evs & [= <-] & Hrun). eapply lock_inv_run; [|done].
  split; cbn; [intros i w since Hi | intros i Hi]; done.
Qed.

(** Reachable states are closed under runs. *)
Lemma reachable_run (m p : Z) (s s' : system) (evs : list event) :
  reachable m p s → run s evs = Some s' → reachable m p s'.
Proof.
  intros (t0 & s0 & evs0 & Hboot & Hrun0) Hrun.
  exists t0, s0, (evs0 ++ evs). split; [done|].
  clear Hboot. revert s0 Hrun0.
  induction evs0 as [|ev evs0 IH]; intros s0 Hrun0; cbn in *.
  - by injection Hrun0 as ->.
  - destruct (step s0 ev); [by apply IH | done].
Qed.

Lemma reachable_step (m p : Z) (s s' : system) (ev : event) :
  reachable m p s → step s ev = Some s' → reachable m p s'.
Proof.
  intros Hs Hstep. apply (reachable_run m p s s' [ev] Hs). cbn. by rewrite Hstep.
Qed.

(** ** Counting admissions *)

Section Count.
Context (P Q : task_state → Prop) `{!∀ st, Decision (P st)} `{!∀ st, Decision (Q st)}.
Implicit Types (m : gmap nat task_state).

Lemma count_tasks_insert_miss m i st :
  ¬ P st → (∀ old, m !! i = Some old → ¬ P old) →
  count_tasks P (<[i := st]> m) = count_tasks P m.
Proof.
  intros Hst Hold. unfold count_tasks.
  by rewrite map_filter_insert_not'.
Qed.

Lemma count_tasks_insert_hit m i st :
  P st → (∀ old, m !! i = Some old → ¬ P old) →
  count_tasks P (<[i := st]> m) = S (count_tasks P m).
Proof.
  intros Hst Hold. unfold count_tasks.
  rewrite map_filter_insert_True by done.
  apply map_size_insert_None. apply map_lookup_filter_None.
  destruct (m !! i) as [old|] eqn:Hi; [right|by left].
  intros st' [= <-]. by apply Hold.
Qed.
End Count.

Lemma newer_snoc (x n : Z) (cs : list Z) :
  newer x (cs ++ [n]) = (newer x cs + (if decide (x < n)%Z then 1 else 0))%nat.
Proof.
  unfold newer. rewrite filter_app, length_app. f_equal.
  rewrite filter_cons. cbn. by repeat case_decide; try lia.
Qed.

Lemma not_granted_after (x : Z) (st : task_state) :
  (∀ a, st ≠ Granted a) → ¬ granted_after x st.
Proof. destruct st as [| |a|]; cbn; try tauto. intros Hst _. by apply (Hst a). Qed.

Lemma not_granted_lookup (m : gmap nat task_state) (i : nat) (old : task_state) :
  (∀ a, m !! i ≠ Some (Granted a)) → m !! i = Some old → ∀ a, old ≠ Granted a.
Proof. intros Hi Hold a ->. by apply (Hi a). Qed.

(** What a move does to the log and to the task table: either it admits
    nobody, and the log is kept or filtered at the current clock, or it admits
    one task at the current clock, and the log is filtered and extended by
    that reading. *)
Lemma step_cases (s s' : system) (ev : event) :
  step s ev = Some s' →
  (clock s <= clock s'
   ∧ (calls (limiter s') = calls (limiter s)
      ∨ calls (limiter s')
        = prune (clock s) (time_period (limiter s)) (calls (limiter s)))
   ∧ (tasks s' = tasks s
      ∨ ∃ i st, tasks s' = <[i := st]> (tasks s)
                ∧ (∀ a, st ≠ Granted a)
                ∧ (∀ a, tasks s !! i ≠ Some (Granted a))))
  ∨ (clock s' = clock s
     ∧ calls (limiter s')
       = prune (clock s) (time_period (limiter s)) (calls (limiter s)) ++ [clock s]
     ∧ ∃ i, tasks s' = <[i := Granted (clock s)]> (tasks s)
            ∧ (∀ a, tasks s !! i ≠ Some (Granted a))).
Proof.
  intros Hstep. destruct ev as [d|i|i|i|i]; cbn in Hstep.
  - case_decide; [|done]. injection Hstep as <-. left. cbn.
    split; [lia|]. split; by left.
  - destruct (tasks s !! i) eqn:Hi; [done|]. injection Hstep as <-. left. cbn.
    split; [lia|]. split; [by left|]. right. exists i, WaitingLock.
    split; [done|]. split; [done|]. intros a. by rewrite Hi.
  - destruct (tasks s !! i) as [[| | |]|] eqn:Hi; try done.
    destruct (_lock (limiter s)) eqn:Hlock; [done|]. injection Hstep as <-.
    pose proof (acquire_enter_shape i (limiter s) (clock s)) as Hshape.
    destruct (acquire_enter i (limiter s) (clock s)) as [self'|w self'|e self'];
      cbn.
    + right. destruct Hshape as (_ & -> & _). split; [done|]. split; [done|].
      exists i. split; [done|]. intros a. by rewrite Hi.
    + left. destruct Hshape as (_ & -> & _). split; [lia|]. split; [by right|].
      right. exists i, (Sleeping w (clock s)).
      split; [done|]. split; [done|]. intros a. by rewrite Hi.
    + left. destruct Hshape as (_ & _ & -> & _). split; [lia|]. split; [by right|].
      right. exists i, (Failed e).
      split; [done|]. split; [done|]. intros a. by rewrite Hi.
  - destruct (tasks s !! i) as [[|w since| |]|] eqn:Hi; try done.
    case_decide; [|done]. injection Hstep as <-. right. cbn.
    split; [done|]. split; [done|].
    exists i. split; [done|]. intros a. by rewrite Hi.
  - destruct (tasks s !! i) as [[|w since| |]|] eqn:Hi; try done;
      injection Hstep as <-; left; cbn;
      (split; [lia|]); (split; [by left|]); right;
      exists i, (Failed CancelledError);
      (split; [done|]); (split; [done|]); intros a; by rewrite Hi.
Qed.

(** ** The lock and the sleep *)

(** C3, as stated, fails.  Quota 1, period 10: task 0 is admitted at time 0;
    task 1 enters at time 5, finds the window full and sleeps for 5 with the
    lock in its hands.  A third task that calls meanwhile cannot enter. *)
Lemma sleeper_holds_the_lock :
  ∃ s, reachable 1 10 s
       ∧ tasks s !! 1%nat = Some (Sleeping 5 5)
       ∧ _lock (limiter s) = Some 1%nat
       ∧ tasks s !! 2%nat = Some WaitingLock
       ∧ step s (Enter 2) = None.
Proof.
  destruct (run (mkSystem (mkLimiter 1 10 [] None) 0 ∅)
              [Call 0; Enter 0; Tick 5; Call 1; Enter 1; Call 2])
    as [s|] eqn:Hrun; [|vm_compute in Hrun; discriminate].
  exists s. split.
  { exists 0, (mkSystem (mkLimiter 1 10 [] None) 0 ∅),
      [Call 0; Enter 0; Tick 5; Call 1; Enter 1; Call 2]. by split. }
  vm_compute in Hrun. injection Hrun as <-. vm_compute. done.
Qed.

(** C3, amended: [acquire] owns the lock for the whole [with] block, the
    sleep included.  In every reachable state a task that sleeps inside
    [acquire] owns the lock, only such a task owns it, no other task can enter
    while it sleeps, and the lock is free again once the sleeper has woken
    and returned, or has been cancelled. *)
Theorem lock_held_across_sleep (m p : Z) (s : system) :
  reachable m p s →
  (∀ i wait_time since,
     tasks s !! i = Some (Sleeping wait_time since) →
     _lock (limiter s) = Some i
     ∧ (∀ j, step s (Enter j) = None)
     ∧ (∀ s', step s (Wake i) = Some s' → _lock (limiter s') = None)
     ∧ (∀ s', step s (Cancel i) = Some s' → _lock (limiter s') = None))
  ∧ (∀ i, _lock (limiter s) = Some i →
          ∃ wait_time since, tasks s !! i = Some (Sleeping wait_time since)).
Proof.
  intros Hs. destruct (lock_inv_reachable m p s Hs) as [Hsleeper Howner].
  split; [|done]. intros i w since Hi.
  pose proof (Hsleeper i w since Hi) as Hlock.
  split; [done|]. split; [|split].
  - intros j. cbn. rewrite Hlock. by repeat case_match.
  - intros s'. cbn. rewrite Hi. case_decide; [|done]. by intros [= <-].
  - intros s'. cbn. rewrite Hi. by intros [= <-].
Qed.

Lemma lock_held_across_sleep_witness :
  ∃ s, run (mkSystem (mkLimiter 1 10 [] None) 0 ∅)
         [Call 0; Enter 0; Tick 5; Call 1; Enter 1] = Some s
       ∧ (∀ i wait_time since,
            tasks s !! i = Some (Sleeping wait_time since) →
            _lock (limiter s) = Some i
            ∧ (∀ j, step s (Enter j) = None)
            ∧ (∀ s', step s (Wake i) = Some s' → _lock (limiter s') = None)
            ∧ (∀ s', step s (Cancel i) = Some s' → _lock (limiter s') = None))
       ∧ (∀ i, _lock (limiter s) = Some i →
               ∃ wait_time since, tasks s !! i = Some (Sleeping wait_time since)).
Proof.
  destruct (run (mkSystem (mkLimiter 1 10 [] None) 0 ∅)
              [Call 0; Enter 0; Tick 5; Call 1; Enter 1])
    as [s|] eqn:Hrun; [|vm_compute in Hrun; discriminate].
  exists s. split; [done|].
  apply (lock_held_across_sleep 1 10 s).
  exists 0, (mkSystem (mkLimiter 1 10 [] None) 0 ∅),
    [Call 0; Enter 0; Tick 5; Call 1; Enter 1]. by split.
Defined.

(** ** Cancellation *)








(** ** Further properties of the limiter *)

(** Runs from a fresh limiter reach reachable states. *)
Lemma reachable_intro (m p t0 : Z) (evs : list event) (s : system) :
  run (mkSystem (mkLimiter m p [] None) t0 ∅) evs = Some s → reachable m p s.
Proof. intros Hrun. by exists t0, (mkSystem (mkLimiter m p [] None) t0 ∅), evs. Qed.

(** Induction over the reachable states. *)
Lemma reachable_ind (m p : Z) (P : system → Prop) :
  (∀ t0 s0, boot m p t0 = Some s0 → P s0) →
  (∀ s ev s', reachable m p s → P s → step s ev = Some s' → P s') →
  ∀ s, reachable m p s → P s.
Proof.
  intros Hboot Hstep s (t0 & s0 & evs & Hs0 & Hrun).
  assert (reachable m p s0) as Hreach by (exists t0, s0, []; by split).
  specialize (Hboot t0 s0 Hs0). clear t0 Hs0.
  revert s0 Hreach Hboot Hrun.
  induction evs as [|ev evs IH]; intros s0 Hreach Hp Hrun; cbn in Hrun.
  - by injection Hrun as <-.
  - destruct (step s0 ev) as [s1|] eqn:Hs1; [|done].
    apply (IH s1); [by eapply reachable_step | by eapply Hstep | done].
Qed.




(** What a possible move is, read off [step]. *)
Lemma step_inv (s s' : system) (ev : event) :
  step s ev = Some s' →
  match ev with
  | Tick d => 0 <= d ∧ s' = mkSystem (limiter s) (clock s + d) (tasks s)
  | Call i =>
      tasks s !! i = None
      ∧ s' = mkSystem (limiter s) (clock s) (<[i := WaitingLock]> (tasks s))
  | Enter i =>
      tasks s !! i = Some WaitingLock ∧ _lock (limiter s) = None
      ∧ s' = settle i s (acquire_enter i (limiter s) (clock s))
  | Wake i =>
      ∃ w since, tasks s !! i = Some (Sleeping w since) ∧ since + w <= clock s
                 ∧ s' = settle i s (Return (acquire_wake (limiter s) (clock s)))
  | Cancel i =>
      (tasks s !! i = Some WaitingLock
       ∧ s' = settle i s (Raise CancelledError (limiter s)))
      ∨ (∃ w since, tasks s !! i = Some (Sleeping w since)
                    ∧ s' = settle i s (Raise CancelledError
                                         (acquire_cancel (limiter s))))
  end.
Proof.
  intros Hstep. destruct ev as [d|i|i|i|i]; cbn in Hstep.
  - case_decide; [|done]. by injection Hstep as <-.
  - destruct (tasks s !! i); [done|]. by injection Hstep as <-.
  - destruct (tasks s !! i) as [[| | |]|]; try done.
    destruct (_lock (limiter s)); [done|]. by injection Hstep as <-.
  - destruct (tasks s !! i) as [[|w since| |]|]; try done.
    case_decide; [|done]. injection Hstep as <-. by exists w, since.
  - destruct (tasks s !! i) as [[|w since| |]|]; try done; injection Hstep as <-.
    + by left.
    + right. by exists w, since.
Qed.

(** With a quota of zero or less nothing is ever logged, nobody sleeps and
    nobody is admitted. *)
Lemma nonpositive_quota_inv (m p : Z) (s : system) :
  m <= 0 → reachable m p s →
  calls (limiter s) = [] ∧ _lock (limiter s) = None
  ∧ (∀ i st, tasks s !! i = Some st →
       st = WaitingLock ∨ st = Failed IndexError ∨ st = Failed CancelledError).
Proof.
  intros Hmax. revert s.
  apply (reachable_ind m p
           (λ s, calls (limiter s) = [] ∧ _lock (limiter s) = None
                 ∧ (∀ i st, tasks s !! i = Some st →
                      st = WaitingLock ∨ st = Failed IndexError
                      ∨ st = Failed CancelledError))).
  { intros t0 s0 [= <-]. cbn. split; [done|]. split; [done|].
    intros i st. by rewrite lookup_empty. }
  intros s ev s' Hs (Hlog & Hlock & Htasks) Hstep.
  destruct (reachable_config m p s Hs) as [Hm _].
  apply step_inv in Hstep.
  destruct ev as [d|i|i|i|i].
  - by destruct Hstep as [_ ->].
  - destruct Hstep as [_ ->]. cbn. split; [done|]. split; [done|].
    intros j st Hj. apply lookup_insert_Some in Hj as [[_ <-]|[_ Hj]];
      [by left | by eapply Htasks].
  - destruct Hstep as (_ & _ & ->).
    rewrite acquire_enter_empty by (rewrite ?Hlog, ?Hm; done). cbn.
    split; [done|]. split; [done|].
    intros j st Hj. apply lookup_insert_Some in Hj as [[_ <-]|[_ Hj]];
      [right; by left | by eapply Htasks].
  - destruct Hstep as (w & since & Hi & _).
    apply Htasks in Hi as [?|[?|?]]; done.
  - destruct Hstep as [[_ ->]|(w & since & Hi & _)].
    + cbn. split; [done|]. split; [done|].
      intros j st Hj. apply lookup_insert_Some in Hj as [[_ <-]|[_ Hj]];
        [right; by right | by eapply Htasks].
    + apply Htasks in Hi as [?|[?|?]]; done.
Qed.

(** X2: with [max_calls <= 0] the limiter admits nobody: in every reachable
    state the log is empty and the lock free, every task is waiting or has
    failed, and whoever enters fails with [IndexError] and leaves the limiter
    as it was. *)
Theorem nonpositive_quota_admits_nobody (m p : Z) (s : system) :
  m <= 0 → reachable m p s →
  calls (limiter s) = [] ∧ _lock (limiter s) = None
  ∧ (∀ i st, tasks s !! i = Some st →
       st = WaitingLock ∨ st = Failed IndexError ∨ st = Failed CancelledError)
  ∧ (∀ i, tasks s !! i = Some WaitingLock →
       ∃ s', step s (Enter i) = Some s'
             ∧ tasks s' !! i = Some (Failed IndexError)
             ∧ limiter s' = limiter s).
Proof.
  intros Hmax Hs.
  destruct (nonpositive_quota_inv m p s Hmax Hs) as (Hlog & Hlock & Htasks).
  split; [done|]. split; [done|]. split; [done|].
  intros i Hi. destruct (reachable_config m p s Hs) as [Hm Hp].
  cbn. rewrite Hi, Hlock. eexists. split; [done|].
  rewrite acquire_enter_empty by (rewrite ?Hlog, ?Hm; done). cbn.
  split; [apply lookup_insert_eq|].
  destruct (limiter s) as [m' p' cs l]. cbn in *. by subst.
Qed.

Lemma nonpositive_quota_admits_nobody_witness :
  ∃ s, run (mkSystem (mkLimiter 0 10 [] None) 0 ∅) [Call 0; Enter 0; Call 1] = Some s
       ∧ calls (limiter s) = [] ∧ _lock (limiter s) = None
       ∧ (∀ i st, tasks s !! i = Some st →
            st = WaitingLock ∨ st = Failed IndexError ∨ st = Failed CancelledError)
       ∧ (∀ i, tasks s !! i = Some WaitingLock →
            ∃ s', step s (Enter i) = Some s'
                  ∧ tasks s' !! i = Some (Failed IndexError)
                  ∧ limiter s' = limiter s).
Proof.
  destruct (run (mkSystem (mkLimiter 0 10 [] None) 0 ∅) [Call 0; Enter 0; Call 1])
    as [s|] eqn:Hrun; [|vm_compute in Hrun; discriminate].
  exists s. split; [done|].
  apply (nonpositive_quota_admits_nobody 0 10 s); [lia | by eapply reachable_intro].
Defined.





Lemma not_is_granted (st : task_state) : (∀ a, st ≠ Granted a) → ¬ is_granted st.
Proof. destruct st as [| |a|]; cbn; try tauto. intros Hst _. by apply (Hst a). Qed.

Lemma newer_prune_le (x now period : Z) (cs : list Z) :
  (newer x (prune now period cs) <= newer x cs)%nat.
Proof.
  unfold newer, prune. rewrite list_filter_filter.
  induction cs as [|c cs IH]; [done|].
  rewrite !filter_cons. repeat case_decide; cbn; lia.
Qed.

Lemma log_admitted_reachable (m p : Z) (s : system) :
  reachable m p s → log_admitted s.
Proof.
  revert s. apply (reachable_ind m p log_admitted).
  { intros t0 s0 [= <-]. split; [|split]; cbn.
    - intros c Hc. by apply elem_of_nil in Hc.
    - intros x. unfold newer. cbn. lia.
    - lia. }
  intros s ev s' Hs (Hmem & Hnum & Hlen) Hstep.
  destruct (step_cases s s' ev Hstep)
    as [(Hclock & Hlog & Htasks)|(Hclock & Hlog & i & Htasks & Hi)].
  - assert (∀ c, c ∈ calls (limiter s') → c ∈ calls (limiter s)) as Hsub.
    { destruct Hlog as [->| ->]; [done|]. intros c Hc.
      by apply elem_of_prune in Hc as [? _]. }
    split; [|split].
    + intros c Hc. destruct (Hmem c (Hsub c Hc)) as (j & Hj).
      destruct Htasks as [->|(k & st & -> & Hst & Hk)]; [by exists j|].
      exists j. rewrite lookup_insert_ne; [done|]. intros ->. by destruct (Hk c).
    + intros x.
      assert (count_tasks (granted_after x) (tasks s')
              = count_tasks (granted_after x) (tasks s)) as ->.
      { destruct Htasks as [->|(k & st & -> & Hst & Hk)]; [done|].
        apply count_tasks_insert_miss; [by apply not_granted_after|].
        intros old Hold. eapply not_granted_after, not_granted_lookup; done. }
      destruct Hlog as [->| ->]; [done|].
      etrans; [apply newer_prune_le | done].
    + assert (count_tasks is_granted (tasks s') = count_tasks is_granted (tasks s)) as ->.
      { destruct Htasks as [->|(k & st & -> & Hst & Hk)]; [done|].
        apply count_tasks_insert_miss; [by apply not_is_granted|].
        intros old Hold. eapply not_is_granted, not_granted_lookup; done. }
      destruct Hlog as [->| ->]; [done|].
      etrans; [apply prune_length | done].
  - unfold log_admitted. rewrite Htasks, Hlog. split; [|split].
    + intros c Hc. apply elem_of_app in Hc as [Hc|Hc].
      * apply elem_of_prune in Hc as [Hc _]. destruct (Hmem c Hc) as (j & Hj).
        exists j. rewrite lookup_insert_ne; [done|]. intros ->. by destruct (Hi c).
      * apply list_elem_of_singleton in Hc as ->. exists i. apply lookup_insert_eq.
    + intros x. rewrite newer_snoc.
      pose proof (newer_prune_le x (clock s) (time_period (limiter s)) (calls (limiter s))).
      specialize (Hnum x).
      destruct (decide (x < clock s)) as [Hlt|Hge].
      * rewrite count_tasks_insert_hit; [lia | done |].
        intros old Hold. eapply not_granted_after, not_granted_lookup; done.
      * rewrite count_tasks_insert_miss; [lia | done |].
        intros old Hold. eapply not_granted_after, not_granted_lookup; done.
    + rewrite length_app. cbn.
      pose proof (prune_length (clock s) (time_period (limiter s)) (calls (limiter s))).
      rewrite count_tasks_insert_hit; [lia | done |].
      intros old Hold. eapply not_is_granted, not_granted_lookup; done.
Qed.



(** X6: the log holds admissions and nothing else: every entry is the
    timestamp of a task whose call returned, and the log has no more
    entries than there are such tasks, in all and above any threshold. *)
Theorem log_entries_are_admissions (m p : Z) (s : system) :
  reachable m p s →
  (∀ c, c ∈ calls (limiter s) → ∃ i, tasks s !! i = Some (Granted c))
  ∧ (∀ x, (newer x (calls (limiter s)) <= count_tasks (granted_after x) (tasks s))%nat)
  ∧ (length (calls (limiter s)) <= count_tasks is_granted (tasks s))%nat.
Proof. intros Hs. exact (log_admitted_reachable m p s Hs). Qed.

Lemma log_entries_are_admissions_witness :
  ∃ s, run (mkSystem (mkLimiter 2 10 [] None) 0 ∅) three_callers = Some s
       ∧ (∀ c, c ∈ calls (limiter s) → ∃ i, tasks s !! i = Some (Granted c))
       ∧ (∀ x, (newer x (calls (limiter s))
                <= count_tasks (granted_after x) (tasks s))%nat)
       ∧ (length (calls (limiter s)) <= count_tasks is_granted (tasks s))%nat.
Proof.
  destruct (run (mkSystem (mkLimiter 2 10 [] None) 0 ∅) three_callers)
    as [s|] eqn:Hrun; [|vm_compute in Hrun; discriminate].
  exists s. split; [done|].
  apply (log_entries_are_admissions 2 10 s). by eapply reachable_intro.
Defined.





(** * The arithmetic of the window, in binary64 *)

(** The decimal constants used below, bit for bit. *)
Lemma decimal_constants :
  (1.1 = 0x1.199999999999ap+0
   ∧ 1.0000003576278687 = 0x1.000006p+0
   ∧ 0.1 = 0x1.999999999999ap-4
   ∧ 0.3 = 0x1.3333333333333p-2
   ∧ 0.2420064647544611 = 0x1.efa115dc53f11p-3
   ∧ 1.3420064647544612 = 0x1.578dbc552417cp+0
   ∧ 0.34200646475446117 = 0x1.5e36f154905fp-2
   ∧ 0.04999995231628418 = 0x1.99998p-5
   ∧ 1699999998.9999998 = 0x1.954fc3fbfffffp+30
   ∧ 1700000000 = 0x1.954fc4p+30
   ∧ 1700000000.0000002 = 0x1.954fc40000001p+30
   ∧ 1700000000.05 = 0x1.954fc40033333p+30
   ∧ 1700000000.1 = 0x1.954fc40066666p+30
   ∧ 1700000000.1000001 = 0x1.954fc40066667p+30
   ∧ 1700000000.5 = 0x1.954fc402p+30
   ∧ 1700000000.5000005 = 0x1.954fc40200002p+30
   ∧ 1700000000.9999998 = 0x1.954fc403fffffp+30
   ∧ 1700000001.0000005 = 0x1.954fc40400002p+30
   ∧ 1700000003.5 = 0x1.954fc40ep+30
   ∧ 77.01259951316428 = 0x1.340ce6e303f1cp+6
   ∧ 77.31259951316427 = 0x1.35401a163724fp+6)%float.
Proof. repeat split. Qed.

(** ** The filter and the branches of [acquire] *)

Lemma elem_of_prune_binary64 (now period : float) (cs : list float) (timestamp : float) :
  timestamp ∈ Binary64.prune now period cs
  ↔ timestamp ∈ cs ∧ Binary64.gtb timestamp (now - period) = true.
Proof. unfold Binary64.prune. by rewrite list_elem_of_filter, (comm and). Qed.

(** The ways [acquire_enter] can go, by the state of the filtered log: there
    is room; or the log is empty and counts as full, which takes a quota of
    zero or less; or the log is full with a first entry, which has passed
    the test of line 29, and the sign of [wait_time] decides between the
    sleep and the append. *)
Lemma acquire_enter_cases_binary64
    (me : nat) (self : Binary64.AsyncRateLimiter) (now : float) :
  let period := Binary64.time_period self in
  let kept := Binary64.prune now period (Binary64.calls self) in
  (Z.of_nat (length kept) < Binary64.max_calls self
   ∧ Binary64.acquire_enter me self now
     = Binary64.Return
         (Binary64.mkLimiter (Binary64.max_calls self) period (kept ++ [now]) None))
  ∨ (Binary64.max_calls self <= 0 ∧ kept = []
     ∧ Binary64.acquire_enter me self now
       = Binary64.Raise IndexError
           (Binary64.mkLimiter (Binary64.max_calls self) period [] None))
  ∨ (∃ oldest_call rest,
       kept = oldest_call :: rest
       ∧ Z.of_nat (length kept) >= Binary64.max_calls self
       ∧ Binary64.gtb oldest_call (now - period) = true
       ∧ if Binary64.gtb (oldest_call + period - now) 0
         then Binary64.acquire_enter me self now
              = Binary64.Await_sleep (oldest_call + period - now)
                  (Binary64.mkLimiter (Binary64.max_calls self) period kept (Some me))
         else Binary64.acquire_enter me self now
              = Binary64.Return
                  (Binary64.mkLimiter (Binary64.max_calls self) period
                     (kept ++ [now]) None)).
Proof.
  cbv zeta. unfold Binary64.acquire_enter. cbn.
  pose proof (elem_of_prune_binary64 now (Binary64.time_period self) (Binary64.calls self))
    as Hin.
  destruct (Binary64.prune now (Binary64.time_period self) (Binary64.calls self))
    as [|oldest_call rest].
  - destruct (decide _) as [Hfull|Hroom]; [|left; split; [lia|done]].
    right. left. cbn in Hfull. split; [lia|done].
  - destruct (decide _) as [Hfull|Hroom]; [|left; split; [lia|done]].
    right. right. exists oldest_call, rest. split; [done|]. split; [done|]. split.
    + apply Hin. left.
    + unfold Binary64.gtb. by destruct (PrimFloat.ltb 0 _).
Qed.

(** ** Control flow, on binary64 as on exact ticks *)

Lemma prune_idemp_binary64 (now period : float) (cs : list float) :
  Binary64.prune now period (Binary64.prune now period cs) = Binary64.prune now period cs.
Proof.
  unfold Binary64.prune. induction cs as [|c cs IH]; [done|].
  rewrite filter_cons. case_decide as Hc; [|done].
  by rewrite filter_cons_True, IH.
Qed.

(** X16: a call of [acquire] that returns leaves the configuration as it
    was and the lock free, and the log equal to the filtered old log
    followed by one new entry, the last clock reading of the call ([now] if
    it did not sleep, the reading after the sleep if it did); it has printed
    and slept once or not at all.  This does not depend on how the numbers
    round. *)
Theorem completed_acquire_appends_once_binary64
    (me : nat) (self self' : Binary64.AsyncRateLimiter) (now : float)
    (w : Binary64.wakeup) (effects : list Binary64.effect) :
  Binary64.acquire me self now w = (Binary64.Returned self', effects) →
  ∃ stamp,
    ((effects = [] ∧ stamp = now)
     ∨ (∃ wait_time,
          effects = [Binary64.Print_rate_limit_reached wait_time; Binary64.Sleep wait_time]
          ∧ w = Binary64.Woken stamp))
    ∧ Binary64.max_calls self' = Binary64.max_calls self
    ∧ Binary64.time_period self' = Binary64.time_period self
    ∧ Binary64._lock self' = None
    ∧ Binary64.calls self'
      = Binary64.prune stamp (Binary64.time_period self)
          (Binary64.prune now (Binary64.time_period self) (Binary64.calls self))
        ++ [stamp]
    ∧ Binary64.prune stamp (Binary64.time_period self)
        (Binary64.prune now (Binary64.time_period self) (Binary64.calls self))
      `sublist_of` Binary64.calls self.
Proof.
  intros Hrun.
  assert (∀ stamp,
    Binary64.prune stamp (Binary64.time_period self)
      (Binary64.prune now (Binary64.time_period self) (Binary64.calls self))
    `sublist_of` Binary64.calls self) as Hsub.
  { intros stamp. etrans; apply sublist_filter. }
  unfold Binary64.acquire in Hrun.
  destruct (acquire_enter_cases_binary64 me self now)
    as [[_ Hgo]|[(_ & _ & Hgo)|(oldest_call & rest & Hkept & _ & _ & Hgo)]].
  - rewrite Hgo in Hrun. injection Hrun as <- <-. exists now.
    rewrite prune_idemp_binary64. cbn. split; [by left|].
    repeat split; apply sublist_filter.
  - rewrite Hgo in Hrun. discriminate.
  - destruct (Binary64.gtb _ 0); rewrite Hgo in Hrun.
    + destruct w as [now'|]; [|discriminate].
      injection Hrun as <- <-. exists now'. cbn.
      split; [right; eexists; by split|]. repeat split. apply Hsub.
    + injection Hrun as <- <-. exists now.
      rewrite prune_idemp_binary64. cbn. split; [by left|].
      repeat split; apply sublist_filter.
Qed.

Lemma completed_acquire_appends_once_binary64_witness :
  ∃ stamp,
    (([Binary64.Print_rate_limit_reached 0.5; Binary64.Sleep 0.5] = [] ∧ stamp = 1700000000.5%float)
     ∨ (∃ wait_time,
          [Binary64.Print_rate_limit_reached 0.5; Binary64.Sleep 0.5]
          = [Binary64.Print_rate_limit_reached wait_time; Binary64.Sleep wait_time]
          ∧ Binary64.Woken 1700000001 = Binary64.Woken stamp))
    ∧ 1 = 1
    ∧ 1%float = 1%float
    ∧ @None nat = None
    ∧ [1700000001]%float
      = Binary64.prune stamp 1 (Binary64.prune 1700000000.5 1 [1700000000]%float) ++ [stamp]
    ∧ Binary64.prune stamp 1 (Binary64.prune 1700000000.5 1 [1700000000]%float)
      `sublist_of` [1700000000]%float.
Proof.
  apply (completed_acquire_appends_once_binary64 2
           (Binary64.mkLimiter 1 1 [1700000000]%float None)
           (Binary64.mkLimiter 1 1 [1700000001]%float None)
           1700000000.5 (Binary64.Woken 1700000001)
           [Binary64.Print_rate_limit_reached 0.5; Binary64.Sleep 0.5]).
  vm_compute. reflexivity.
Defined.



(** ** The quota *)

(** C1 fails on the code, at three inputs; the quota is one each time.

    Period 1.1: a first caller is admitted at the reading
    0.2420064647544611, a second reads 1.3420064647544612.  [now -
    time_period] is rounded to 0.24200646475446108, so the first timestamp
    passes the test of line 29 and the window is full; [oldest_call +
    time_period] is rounded to 1.3420064647544612, so [wait_time] is 0.0,
    the guard of line 35 fails and line 44 appends at once.

    Period 1.0000003576278687, readings 1699999998.9999998 and 1700000000:
    the same, at the size of today's clock readings.

    Period 1, first admission at 1700000000: a second caller reads
    1700000000.5 and sleeps 0.5; the next reading is 1700000000.9999998 (the
    sleep is timed by the loop's clock, the reading is the wall clock's).
    The first timestamp passes the test of line 41 and line 44 appends
    without comparing the length of the log with [max_calls] again.

    Each time every call has returned and the log holds two timestamps in
    the window that ends at the last of them: two by the code's own test,
    two as real numbers. *)
Theorem quota_exceeded_by_completed_calls :
  Binary64.__init__ 1 1.1 = inr (Binary64.mkLimiter 1 1.1 [] None)
  ∧ (∀ w, Binary64.acquire 1 (Binary64.mkLimiter 1 1.1 [] None) 0.2420064647544611 w
          = (Binary64.Returned (Binary64.mkLimiter 1 1.1 [0.2420064647544611]%float None),
             []))
  ∧ (∀ w, Binary64.acquire 2 (Binary64.mkLimiter 1 1.1 [0.2420064647544611]%float None)
            1.3420064647544612 w
          = (Binary64.Returned
               (Binary64.mkLimiter 1 1.1
                  [0.2420064647544611; 1.3420064647544612]%float None),
             []))
  ∧ Binary64.in_window 1.3420064647544612 1.1
      [0.2420064647544611; 1.3420064647544612]%float = 2%nat
  ∧ Binary64.stamps_inside 1.3420064647544612 1.1
      [0.2420064647544611; 1.3420064647544612]%float = 2%nat
  ∧ (∀ w, Binary64.acquire 1 (Binary64.mkLimiter 1 1.0000003576278687 [] None)
            1699999998.9999998 w
          = (Binary64.Returned
               (Binary64.mkLimiter 1 1.0000003576278687 [1699999998.9999998]%float None),
             []))
  ∧ (∀ w, Binary64.acquire 2
            (Binary64.mkLimiter 1 1.0000003576278687 [1699999998.9999998]%float None)
            1700000000 w
          = (Binary64.Returned
               (Binary64.mkLimiter 1 1.0000003576278687
                  [1699999998.9999998; 1700000000]%float None),
             []))
  ∧ Binary64.in_window 1700000000 1.0000003576278687
      [1699999998.9999998; 1700000000]%float = 2%nat
  ∧ Binary64.stamps_inside 1700000000 1.0000003576278687
      [1699999998.9999998; 1700000000]%float = 2%nat
  ∧ (∀ w, Binary64.acquire 1 (Binary64.mkLimiter 1 1 [] None) 1700000000 w
          = (Binary64.Returned (Binary64.mkLimiter 1 1 [1700000000]%float None), []))
  ∧ Binary64.acquire 2 (Binary64.mkLimiter 1 1 [1700000000]%float None) 1700000000.5
      (Binary64.Woken 1700000000.9999998)
    = (Binary64.Returned
         (Binary64.mkLimiter 1 1 [1700000000; 1700000000.9999998]%float None),
       [Binary64.Print_rate_limit_reached 0.5; Binary64.Sleep 0.5])
  ∧ Binary64.in_window 1700000000.9999998 1
      [1700000000; 1700000000.9999998]%float = 2%nat
  ∧ Binary64.stamps_inside 1700000000.9999998 1
      [1700000000; 1700000000.9999998]%float = 2%nat.
Proof.
  repeat split; try intros w; vm_compute; reflexivity.
Qed.

(** ** The full-window branch *)

(** C10 holds in its first half and fails on the code in its second.

    With [max_calls >= 1] a log that is full after filtering has a first
    entry, so [self.calls[0]] raises nothing, and that entry has passed the
    test [timestamp > now - time_period].

    [wait_time] is not positive for all that.  Period 1.1, log
    [[0.2420064647544611]], reading 1.3420064647544612: the entry passes the
    test and [oldest_call + time_period - now] is 0.0, so the guard of line
    35 fails and the call falls through to line 44 with a full window.  The
    same with period 1.0000003576278687, log [[1699999998.9999998]] and
    reading 1700000000. *)
Theorem full_window_falls_through :
  (∀ me self now,
     1 <= Binary64.max_calls self →
     Z.of_nat (length (Binary64.prune now (Binary64.time_period self)
                         (Binary64.calls self)))
     >= Binary64.max_calls self →
     ∃ oldest_call rest,
       Binary64.prune now (Binary64.time_period self) (Binary64.calls self)
       = oldest_call :: rest
       ∧ Binary64.gtb oldest_call (now - Binary64.time_period self) = true
       ∧ ∀ e self', Binary64.acquire_enter me self now ≠ Binary64.Raise e self')
  ∧ Binary64.prune 1.3420064647544612 1.1 [0.2420064647544611]%float
    = [0.2420064647544611]%float
  ∧ Binary64.gtb 0.2420064647544611 (1.3420064647544612 - 1.1) = true
  ∧ (0.2420064647544611 + 1.1 - 1.3420064647544612 = 0)%float
  ∧ Binary64.gtb (0.2420064647544611 + 1.1 - 1.3420064647544612) 0 = false
  ∧ Binary64.acquire_enter 2 (Binary64.mkLimiter 1 1.1 [0.2420064647544611]%float None)
      1.3420064647544612
    = Binary64.Return
        (Binary64.mkLimiter 1 1.1 [0.2420064647544611; 1.3420064647544612]%float None)
  ∧ Binary64.prune 1700000000 1.0000003576278687 [1699999998.9999998]%float
    = [1699999998.9999998]%float
  ∧ Binary64.gtb 1699999998.9999998 (1700000000 - 1.0000003576278687) = true
  ∧ (1699999998.9999998 + 1.0000003576278687 - 1700000000 = 0)%float
  ∧ Binary64.gtb (1699999998.9999998 + 1.0000003576278687 - 1700000000) 0 = false
  ∧ Binary64.acquire_enter 2
      (Binary64.mkLimiter 1 1.0000003576278687 [1699999998.9999998]%float None) 1700000000
    = Binary64.Return
        (Binary64.mkLimiter 1 1.0000003576278687
           [1699999998.9999998; 1700000000]%float None).
Proof.
  split; [|repeat split; vm_compute; reflexivity].
  intros me self now Hmax Hfull.
  destruct (acquire_enter_cases_binary64 me self now)
    as [[Hroom _]|[(Hzero & _)|(oldest_call & rest & Hkept & _ & Hlive & Hrun)]];
    [lia|lia|].
  exists oldest_call, rest. split; [done|]. split; [done|].
  intros e self'.
  destruct (Binary64.gtb (oldest_call + _ - now) 0); rewrite Hrun; discriminate.
Qed.

Lemma full_window_falls_through_witness :
  ∃ oldest_call rest,
    Binary64.prune 1.3420064647544612 1.1 [0.2420064647544611]%float = oldest_call :: rest
    ∧ Binary64.gtb oldest_call (1.3420064647544612 - 1.1) = true
    ∧ ∀ e self',
        Binary64.acquire_enter 2 (Binary64.mkLimiter 1 1.1 [0.2420064647544611]%float None)
          1.3420064647544612
        ≠ Binary64.Raise e self'.
Proof.
  destruct full_window_falls_through as [Hsafe _].
  apply (Hsafe 2%nat (Binary64.mkLimiter 1 1.1 [0.2420064647544611]%float None)
           1.3420064647544612%float).
  - cbn. lia.
  - vm_compute. discriminate.
Defined.

(** ** After the sleep *)

(** C4 fails on the code.  Lines 38-44 are straight-line code: whatever the
    limiter and the reading after the sleep, the log is filtered and the
    reading appended, with no comparison with [max_calls] and no second
    [await]; a call prints and sleeps once or not at all.

    Where a second look would have found the window still full, the code
    appends all the same.  Period 1, quota 1, log [[1700000000]]: the
    caller reads 1700000000.5 and sleeps 0.5; the next reading is
    1700000000.9999998 and the log becomes [[1700000000;
    1700000000.9999998]].  Period 1.1, quota 1, log
    [[0.2420064647544611]]: the caller reads 1 and sleeps
    0.34200646475446117; the next reading is 1.3420064647544612, which is
    the first reading plus the sleep to the last digit, the old entry still
    passes the test of line 41, and the log becomes [[0.2420064647544611;
    1.3420064647544612]]. *)
Theorem appends_after_one_sleep_with_full_window :
  (∀ self now',
     Binary64.acquire_wake self now'
     = Binary64.mkLimiter (Binary64.max_calls self) (Binary64.time_period self)
         (Binary64.prune now' (Binary64.time_period self) (Binary64.calls self) ++ [now'])
         None)
  ∧ (∀ me self now w,
       snd (Binary64.acquire me self now w) = []
       ∨ ∃ wait_time,
           snd (Binary64.acquire me self now w)
           = [Binary64.Print_rate_limit_reached wait_time; Binary64.Sleep wait_time])
  ∧ Binary64.acquire 2 (Binary64.mkLimiter 1 1 [1700000000]%float None) 1700000000.5
      (Binary64.Woken 1700000000.9999998)
    = (Binary64.Returned
         (Binary64.mkLimiter 1 1 [1700000000; 1700000000.9999998]%float None),
       [Binary64.Print_rate_limit_reached 0.5; Binary64.Sleep 0.5])
  ∧ Binary64.in_window 1700000000.9999998 1
      (Binary64.prune 1700000000.5 1 [1700000000]%float) = 1%nat
  ∧ Binary64.acquire 2 (Binary64.mkLimiter 1 1.1 [0.2420064647544611]%float None) 1
      (Binary64.Woken 1.3420064647544612)
    = (Binary64.Returned
         (Binary64.mkLimiter 1 1.1 [0.2420064647544611; 1.3420064647544612]%float None),
       [Binary64.Print_rate_limit_reached 0.34200646475446117;
        Binary64.Sleep 0.34200646475446117])
  ∧ Binary64.adds_up 1 0.34200646475446117 1.3420064647544612 = true
  ∧ Binary64.in_window 1.3420064647544612 1.1
      (Binary64.prune 1 1.1 [0.2420064647544611]%float) = 1%nat.
Proof.
  split; [done|]. split.
  { intros me self now w. unfold Binary64.acquire.
    destruct (Binary64.acquire_enter me self now) as [?|wait_time ?|? ?]; cbn;
      [by left | right; exists wait_time; by destruct w | by left]. }
  repeat split; vm_compute; reflexivity.
Qed.

(** ** The length of the wait *)

(** C5 holds for the formula and fails on the code for what is drawn from
    it.

    Whenever [acquire] sleeps, the duration it prints and passes to
    [asyncio.sleep] is [oldest_call + time_period - now] as binary64
    computes it, [oldest_call] being the first entry of the filtered log.

    That duration can end before the oldest entry leaves the window.
    Period 1.0000003576278687, quota 1, log [[1700000000.0000002]], reading
    1700000000.5000005: the duration is 0.5, while the entry leaves the
    window 0.5000001192092896 later.  A sleep of 0.5 to the last digit
    ends at the reading 1700000001.0000005, where the entry is inside the
    window both by the test of line 41 and as a real number; the caller is
    released and appends.  The same with period 1.1, log
    [[0.2420064647544611]], reading 1, duration 0.34200646475446117 and next
    reading 1.3420064647544612. *)
Theorem sleep_ends_before_oldest_expires :
  (∀ me self now wait_time self',
     Binary64.acquire_enter me self now = Binary64.Await_sleep wait_time self' →
     ∃ oldest_call rest,
       Binary64.prune now (Binary64.time_period self) (Binary64.calls self)
       = oldest_call :: rest
       ∧ wait_time = (oldest_call + Binary64.time_period self - now)%float
       ∧ ∀ w, snd (Binary64.acquire me self now w)
              = [Binary64.Print_rate_limit_reached wait_time; Binary64.Sleep wait_time])
  ∧ Binary64.acquire_enter 2
      (Binary64.mkLimiter 1 1.0000003576278687 [1700000000.0000002]%float None)
      1700000000.5000005
    = Binary64.Await_sleep 0.5
        (Binary64.mkLimiter 1 1.0000003576278687 [1700000000.0000002]%float (Some 2%nat))
  ∧ (1700000000.0000002 + 1.0000003576278687 - 1700000000.5000005 = 0.5)%float
  ∧ Binary64.adds_up 1700000000.5000005 0.5 1700000001.0000005 = true
  ∧ Binary64.prune 1700000001.0000005 1.0000003576278687 [1700000000.0000002]%float
    = [1700000000.0000002]%float
  ∧ Binary64.inside 1700000001.0000005 1.0000003576278687 1700000000.0000002 = true
  ∧ Binary64.acquire 2
      (Binary64.mkLimiter 1 1.0000003576278687 [1700000000.0000002]%float None)
      1700000000.5000005 (Binary64.Woken 1700000001.0000005)
    = (Binary64.Returned
         (Binary64.mkLimiter 1 1.0000003576278687
            [1700000000.0000002; 1700000001.0000005]%float None),
       [Binary64.Print_rate_limit_reached 0.5; Binary64.Sleep 0.5])
  ∧ Binary64.acquire_enter 2 (Binary64.mkLimiter 1 1.1 [0.2420064647544611]%float None) 1
    = Binary64.Await_sleep 0.34200646475446117
        (Binary64.mkLimiter 1 1.1 [0.2420064647544611]%float (Some 2%nat))
  ∧ Binary64.adds_up 1 0.34200646475446117 1.3420064647544612 = true
  ∧ Binary64.prune 1.3420064647544612 1.1 [0.2420064647544611]%float
    = [0.2420064647544611]%float
  ∧ Binary64.inside 1.3420064647544612 1.1 0.2420064647544611 = true.
Proof.
  split; [|repeat split; vm_compute; reflexivity].
  intros me self now wait_time self' Hrun.
  destruct (acquire_enter_cases_binary64 me self now)
    as [[_ Hgo]|[(_ & _ & Hgo)|(oldest_call & rest & Hkept & _ & _ & Hgo)]];
    [congruence | congruence |].
  exists oldest_call, rest. split; [done|].
  destruct (Binary64.gtb _ 0); [|congruence].
  rewrite Hrun in Hgo. injection Hgo as -> _. split; [done|].
  intros w. unfold Binary64.acquire. rewrite Hrun. by destruct w.
Qed.

Lemma sleep_ends_before_oldest_expires_witness :
  ∃ oldest_call rest,
    Binary64.prune 1 1.1 [0.2420064647544611]%float = oldest_call :: rest
    ∧ 0.34200646475446117%float = (oldest_call + 1.1 - 1)%float
    ∧ ∀ w, snd (Binary64.acquire 2
                  (Binary64.mkLimiter 1 1.1 [0.2420064647544611]%float None) 1 w)
           = [Binary64.Print_rate_limit_reached 0.34200646475446117;
              Binary64.Sleep 0.34200646475446117].
Proof.
  destruct sleep_ends_before_oldest_expires as [Hwait _].
  apply (Hwait 2%nat (Binary64.mkLimiter 1 1.1 [0.2420064647544611]%float None) 1%float
           0.34200646475446117%float
           (Binary64.mkLimiter 1 1.1 [0.2420064647544611]%float (Some 2%nat))).
  vm_compute. reflexivity.
Defined.

(** ** The boundary of the window *)

(** C6 fails on the code.  The filter keeps the entries for which
    [timestamp > now - time_period] holds in binary64, the difference
    rounded, and no others.

    It removes timestamps younger than one period.  Period 0.3, entry
    77.01259951316428, reading 77.31259951316427: the difference is rounded
    up to the entry itself, the test fails and the entry is removed, though
    as a real number it lies inside [(now - time_period, now]].  The same
    with period 0.1, entry 1700000000.0000002 and reading
    1700000000.1000001.

    The test has no upper end either: with period 2 and reading 1700000000,
    the entry 1700000003.5, logged before the wall clock was set back, is
    kept. *)
Theorem prune_removes_a_live_timestamp :
  (∀ now period cs timestamp,
     timestamp ∈ Binary64.prune now period cs
     ↔ timestamp ∈ cs ∧ Binary64.gtb timestamp (now - period) = true)
  ∧ Binary64.prune 77.31259951316427 0.3 [77.01259951316428]%float = []
  ∧ (77.31259951316427 - 0.3 = 77.01259951316428)%float
  ∧ Binary64.inside 77.31259951316427 0.3 77.01259951316428 = true
  ∧ Binary64.prune 1700000000.1000001 0.1 [1700000000.0000002]%float = []
  ∧ (1700000000.1000001 - 0.1 = 1700000000.0000002)%float
  ∧ Binary64.inside 1700000000.1000001 0.1 1700000000.0000002 = true
  ∧ Binary64.prune 1700000000 2 [1700000003.5]%float = [1700000003.5]%float
  ∧ Binary64.inside 1700000000 2 1700000003.5 = false.
Proof.
  split; [apply elem_of_prune_binary64|].
  repeat split; vm_compute; reflexivity.
Qed.

(** ** Quota one *)

(** C9 fails on the code; the quota is one and the period 0.1.

    A first caller is admitted at the reading 1700000000.0000002; a second
    reads 1700000000.1000001.  [now - time_period] is rounded up to the
    first timestamp, which fails the test of line 29 and is removed; the
    second caller is admitted at once.  The two admissions are
    0.09999990463256836 apart, less than the period, as real numbers and in
    binary64.

    A first caller is admitted at 1700000000; a second reads 1700000000.05
    and sleeps 0.04999995231628418.  The sleep over, to the last digit, it
    reads 1700000000.1, the first timestamp fails the test of line 41 and
    the caller is admitted, again 0.09999990463256836 after the first. *)
Theorem admissions_closer_than_period :
  Binary64.__init__ 1 0.1 = inr (Binary64.mkLimiter 1 0.1 [] None)
  ∧ (∀ w, Binary64.acquire 1 (Binary64.mkLimiter 1 0.1 [] None) 1700000000.0000002 w
          = (Binary64.Returned (Binary64.mkLimiter 1 0.1 [1700000000.0000002]%float None),
             []))
  ∧ (∀ w, Binary64.acquire 2 (Binary64.mkLimiter 1 0.1 [1700000000.0000002]%float None)
            1700000000.1000001 w
          = (Binary64.Returned (Binary64.mkLimiter 1 0.1 [1700000000.1000001]%float None),
             []))
  ∧ Binary64.inside 1700000000.1000001 0.1 1700000000.0000002 = true
  ∧ PrimFloat.ltb (1700000000.1000001 - 1700000000.0000002) 0.1 = true
  ∧ (∀ w, Binary64.acquire 1 (Binary64.mkLimiter 1 0.1 [] None) 1700000000 w
          = (Binary64.Returned (Binary64.mkLimiter 1 0.1 [1700000000]%float None), []))
  ∧ Binary64.acquire 2 (Binary64.mkLimiter 1 0.1 [1700000000]%float None) 1700000000.05
      (Binary64.Woken 1700000000.1)
    = (Binary64.Returned (Binary64.mkLimiter 1 0.1 [1700000000.1]%float None),
       [Binary64.Print_rate_limit_reached 0.04999995231628418;
        Binary64.Sleep 0.04999995231628418])
  ∧ Binary64.adds_up 1700000000.05 0.04999995231628418 1700000000.1 = true
  ∧ Binary64.inside 1700000000.1 0.1 1700000000 = true
  ∧ PrimFloat.ltb (1700000000.1 - 1700000000) 0.1 = true.
Proof.
  repeat split; try intros w; vm_compute; reflexivity.
Qed.
